(** * pymongokit: the document model and the collection mediator

    A shallow embedding of [pymongokit/documents.py] and
    [pymongokit/collections.py].

    Python dictionaries are finite maps from strings to values; the pydantic
    schema engine, the store driver and the error handler are collaborators of
    the code and appear as a field table and as two interfaces.  Mediator
    methods run in a state-and-exception monad over a world made of the store,
    the handler's private state, the heap of caller-owned dictionaries, the
    ObjectId generator and a log of the collaborator calls issued so far. *)

From stdpp Require Import gmap strings list pretty.



(** ** Python values *)

(** Scalar values stored in a document. *)
Inductive pyval :=
| PNone
| PBool (b : bool)
| PInt (z : Z)
| PStr (s : string)
| PObjectId (hex : string).

Global Instance pyval_eq_dec : EqDecision pyval.
Proof. solve_decision. Defined.

(** [str(x)] *)
Definition py_str (x : pyval) : string :=
  match x with
  | PNone => "None"
  | PBool true => "True"
  | PBool false => "False"
  | PInt z => pretty z
  | PStr s => s
  | PObjectId hex => hex
  end.

(** A [dict] with string keys. *)
Abbreviation mapping := (gmap string pyval).

(** Exceptions. [StoreError] stands for whatever the driver raises,
    [Classified] for an exception built by an error handler around a cause. *)
Inductive exn :=
| ValidationError (errors : list string)
| TypeError (msg : string)
| AttributeError (attr : string)
| UnboundLocalError (var : string)
| StoreError (code : nat)
| Classified (kind : string) (cause : exn).

Global Instance exn_eq_dec : EqDecision exn.
Proof. solve_decision. Defined.

(** The outcome of a call: a returned value or a raised exception. *)
Inductive outcome (A : Type) :=
| Ret (a : A)
| Raise (e : exn).
Arguments Ret {A} a.
Arguments Raise {A} e.

(** ** documents.py *)

Module BaseDocument.

(** One declared attribute of a pydantic model: its name, the coercion of
    its declared type ([None] is a type error) and its default, if it has
    one (a field without a default is required). *)
Record field := Field {
  fname : string;
  ftype : pyval -> option pyval;
  fdefault : option pyval
}.

(** The coercion pydantic applies to [Optional[str]]: [None] and strings
    pass, numbers (and booleans, which are integers) are printed, anything
    else is a type error. *)
Definition optional_str (v : pyval) : option pyval :=
  match v with
  | PNone => Some PNone
  | PStr s => Some (PStr s)
  | PInt z => Some (PStr (py_str (PInt z)))
  | PBool b => Some (PStr (py_str (PBool b)))
  | PObjectId _ => None
  end.

(** [mongoid: Optional[str] = Field(None, ...)] *)
Definition mongoid_field : field :=
  Field "mongoid" optional_str (Some PNone).

(** The fields of a model class deriving from [BaseDocument] and declaring
    [extra]; [BaseDocument] itself is [model_fields []]. *)
Definition model_fields (extra : list field) : list field :=
  mongoid_field :: extra.

(** The [@root_validator(pre=True)]:
    [if '_id' in values: values['mongoid'] = str(values.pop('_id'))]. *)
Definition handle_objectid (values : mapping) : mapping :=
  match values !! "_id" with
  | Some x => <["mongoid" := PStr (py_str x)]> (delete "_id" values)
  | None => values
  end.

(** Typed construction: every declared field is looked up in the input
    (keys that are not declared are ignored), coerced, or defaulted. The
    names of the fields in error are collected in declaration order. *)
Fixpoint validate_fields (fs : list field) (values : mapping)
  : mapping * list string :=
  match fs with
  | [] => (∅, [])
  | f :: fs' =>
      let '(vals, errs) := validate_fields fs' values in
      match values !! fname f with
      | Some x =>
          match ftype f x with
          | Some y => (<[fname f := y]> vals, errs)
          | None => (vals, fname f :: errs)
          end
      | None =>
          match fdefault f with
          | Some d => (<[fname f := d]> vals, errs)
          | None => (vals, fname f :: errs)
          end
      end
  end.

(** A validated record: the attribute dictionary of a model instance. *)
Record model := Model { model_dict : mapping }.

(** The external identity attribute, [record.mongoid]. *)
Definition mongoid (r : model) : option pyval := model_dict r !! "mongoid".

(** Building a model from the keywords of [raw]: the pre root validator
    runs on the keyword dictionary (a fresh copy of [raw]), then the typed
    construction. *)
Definition validate (extra : list field) (raw : mapping) : outcome model :=
  let values := handle_objectid raw in
  match validate_fields (model_fields extra) values with
  | (vals, []) => Ret (Model vals)
  | (_, errs) => Raise (ValidationError errs)
  end.

(** [dict(self)]:
    [{k: v for k, v in super().dict().items() if k != 'mongoid'}]. *)
Definition dict (r : model) : mapping :=
  filter (λ kv, kv.1 ≠ "mongoid") (model_dict r).

End BaseDocument.

(** ** collections.py *)

Module BaseCollection.
Import BaseDocument.

(** A pipeline stage: [{'$match': query}], or a stage supplied by the
    caller, which the mediator never looks into. *)
Inductive stage :=
| Match (query : mapping)
| Stage (op : string) (spec : mapping).

(** [{'$set': update_data}] *)
Inductive update_spec :=
| SetFields (update_data : mapping).

(** [{"_id": {"$in": ids}}] *)
Inductive id_query :=
| IdIn (ids : list pyval).

(** The driver's acknowledgments. *)
Record InsertManyResult := { inserted_ids : list pyval }.
Record UpdateResult := { matched_count : Z; modified_count : Z }.
Record DeleteResult := { deleted_count : Z }.

(** What a mediator method can hold in a variable or return. *)
#[warnings="-register-all"]
Inductive value :=
| VScalar (x : pyval)
| VDict (d : mapping)
| VModel (m : model)
| VList (items : list value)
| VInsertResult (r : InsertManyResult)
| VUpdateResult (r : UpdateResult)
| VDeleteResult (r : DeleteResult)
| VTable (rows : list (list pyval)).

Abbreviation VNone := (VScalar PNone).

(** The two bound methods [_execute_update] tells apart with [==], and the
    two that [_execute_delete] is given. *)
Inductive update_method := UpdateOne | UpdateMany.
Inductive delete_method := DeleteOne | DeleteMany.

Global Instance update_method_eq_dec : EqDecision update_method.
Proof. solve_decision. Defined.

(** The calls that leave the mediator, in the order they are issued. *)
Inductive event :=
| EvAggregate (pipeline : list stage)
| EvInsertMany (batch : list mapping)
| EvUpdate (f : update_method) (query : mapping) (u : update_spec)
| EvDelete (f : delete_method) (query : mapping)
| EvHandleError (e : exn).

(** The store driver behind [self.collection]. *)
Class Collection (db : Type) := {
  aggregate : list stage -> db -> outcome (list mapping) * db;
  collection_insert_many : list mapping -> db -> outcome InsertManyResult * db;
  collection_update_one : mapping -> update_spec -> db -> outcome UpdateResult * db;
  collection_update_many : mapping -> update_spec -> db -> outcome UpdateResult * db;
  collection_delete_one : mapping -> db -> outcome DeleteResult * db;
  collection_delete_many : mapping -> db -> outcome DeleteResult * db
}.

(** The error handler behind [self.error_handler]: it sees the exception
    and its own state only, and either returns or raises. *)
Class ErrorHandler (hs : Type) := {
  handle_error : exn -> hs -> outcome unit * hs
}.

(** The attributes [BaseCollection] defines: its methods, and the three
    names [__init__] binds. *)
Definition BaseCollection_attributes : list string :=
  [ "__init__"; "collection"; "document_model"; "error_handler";
    "_execute_with_error_handling"; "_validate_docs"; "_execute_find";
    "_execute_insertion"; "_execute_update"; "_execute_delete";
    "_handle_result"; "find"; "find_by_id"; "insert_many"; "insert_one";
    "insert_by_id"; "update_one"; "update_many"; "update_by_id";
    "delete_one"; "delete_many"; "delete_by_id" ].

Section Mediator.
Context {db hs : Type} `{!Collection db} `{!ErrorHandler hs}.

(** The fields the bound document model declares besides [mongoid]. *)
Variable document_fields : list field.

Record world := World {
  store : db;
  handler_state : hs;
  heap : gmap nat mapping;
  next_oid : nat;
  trace : list event
}.

Definition set_store (d : db) (w : world) : world :=
  World d (handler_state w) (heap w) (next_oid w) (trace w).
Definition set_handler_state (h : hs) (w : world) : world :=
  World (store w) h (heap w) (next_oid w) (trace w).
Definition set_heap (m : gmap nat mapping) (w : world) : world :=
  World (store w) (handler_state w) m (next_oid w) (trace w).
Definition set_next_oid (n : nat) (w : world) : world :=
  World (store w) (handler_state w) (heap w) n (trace w).
Definition log (ev : event) (w : world) : world :=
  World (store w) (handler_state w) (heap w) (next_oid w)
    (trace w ++ [ev]).

(** *** The monad of mediator code *)

Definition M (A : Type) : Type := world -> outcome A * world.

Global Instance M_ret : MRet M := λ A a w, (Ret a, w).
Global Instance M_bind : MBind M := λ A B k m w,
  match m w with
  | (Ret a, w') => k a w'
  | (Raise e, w') => (Raise e, w')
  end.

Definition raise {A} (e : exn) : M A := λ w, (Raise e, w).

Definition lift {A} (r : outcome A) : M A := λ w, (r, w).

(** [try: body / except Exception as e: handler(e)] *)
Definition try_except {A} (body : M A) (handler : exn -> M A) : M A := λ w,
  match body w with
  | (Ret a, w') => (Ret a, w')
  | (Raise e, w') => handler e w'
  end.

(** [[f(x) for x in items]] *)
Fixpoint comprehension {A B} (f : A -> M B) (items : list A) : M (list B) :=
  match items with
  | [] => mret []
  | x :: rest => y ← f x; ys ← comprehension f rest; mret (y :: ys)
  end.

(** *** Python operations on values *)

(** [for x in v] *)
Definition py_iter (v : value) : M (list value) :=
  match v with
  | VList items => mret items
  | VDict d => mret ((λ kv, VScalar (PStr kv.1)) <$> map_to_list d)
  | _ => raise (TypeError "object is not iterable")
  end.

(** [bool(steps)] for an optional list. *)
Definition truthy {A} (steps : option (list A)) : bool :=
  match steps with
  | Some (_ :: _) => true
  | _ => false
  end.

(** [ObjectId()]: a fresh identifier, here the next one of a counter. *)
Definition ObjectId : M pyval := λ w,
  (Ret (PObjectId (pretty (next_oid w))), set_next_oid (S (next_oid w)) w).

(** [self.name]: resolves for the attributes the class defines, and raises
    [AttributeError] for any other name. *)
Definition self_getattr (name : string) : M unit :=
  if decide (name ∈ BaseCollection_attributes) then mret ()
  else raise (AttributeError name).

(** *** Calls to the collaborators *)

Definition collection_aggregate (pipeline : list stage) : M value := λ w,
  let '(r, d) := aggregate pipeline (store w) in
  (match r with
   | Ret docs => Ret (VList (VDict <$> docs))
   | Raise e => Raise e
   end, log (EvAggregate pipeline) (set_store d w)).

Definition insert_many_method (batch : list mapping) : M value := λ w,
  let '(r, d) := collection_insert_many batch (store w) in
  (match r with
   | Ret ack => Ret (VInsertResult ack)
   | Raise e => Raise e
   end, log (EvInsertMany batch) (set_store d w)).

Definition update_method_call (f : update_method) (query : mapping)
    (update : update_spec) : M value := λ w,
  let '(r, d) :=
    match f with
    | UpdateOne => collection_update_one query update (store w)
    | UpdateMany => collection_update_many query update (store w)
    end in
  (match r with
   | Ret ack => Ret (VUpdateResult ack)
   | Raise e => Raise e
   end, log (EvUpdate f query update) (set_store d w)).

Definition delete_method_call (f : delete_method) (query : mapping)
    : M value := λ w,
  let '(r, d) :=
    match f with
    | DeleteOne => collection_delete_one query (store w)
    | DeleteMany => collection_delete_many query (store w)
    end in
  (match r with
   | Ret ack => Ret (VDeleteResult ack)
   | Raise e => Raise e
   end, log (EvDelete f query) (set_store d w)).

(** [self.error_handler.handle_error(e)] *)
Definition error_handler (e : exn) : M unit := λ w,
  let '(r, h) := handle_error e (handler_state w) in
  (r, log (EvHandleError e) (set_handler_state h w)).

(** [self.document_model( **doc)] *)
Definition document_model (doc : value) : M value :=
  match doc with
  | VDict d =>
      match validate document_fields d with
      | Ret m => mret (VModel m)
      | Raise e => raise e
      end
  | _ => raise (TypeError "argument after ** must be a mapping")
  end.

(** [doc.dict()] *)
Definition dict_method (doc : value) : M mapping :=
  match doc with
  | VModel m => mret (dict m)
  | _ => raise (AttributeError "dict")
  end.
(** *** The methods of [BaseCollection] *)

(** [try: return func( *args, **kwargs) / except Exception as e:
    error_handler.handle_error(e)]; after a handler that returns, the
    function falls off its end and yields [None]. *)
Definition _execute_with_error_handling {A} (func : A -> M value)
    (error_handler : exn -> M unit) (args : A) : M value :=
  try_except (func args) (λ e, error_handler e;; mret VNone).

Definition _validate_docs (docs : value) : M value :=
  let aux_func (docs : value) : M value :=
    items ← py_iter docs;
    models ← comprehension document_model items;
    mret (VList models) in
  _execute_with_error_handling aux_func error_handler docs.

Definition _execute_find (query : mapping)
    (pipeline_steps : option (list stage)) : M value :=
  let find_agg (kwargs : mapping * option (list stage)) : M value :=
    let query := kwargs.1 in
    let pipeline_steps := kwargs.2 in
    let pipeline := [Match query] in
    let pipeline :=
      if truthy pipeline_steps
      then pipeline ++ default [] pipeline_steps
      else pipeline in
    collection_aggregate pipeline in
  _execute_with_error_handling find_agg error_handler
    (query, pipeline_steps).

Definition _execute_insertion (func : list mapping -> M value)
    (docs : value) (find_query : id_query) : M value :=
  let insert_documents (docs : value) : M value :=
    match docs with
    | VDict _ =>
        validated_doc ← document_model docs;
        d ← dict_method validated_doc;
        func [d]
    | _ =>
        validated_docs ← _validate_docs docs;
        items ← py_iter validated_docs;
        batch ← comprehension dict_method items;
        func batch
    end in
  _execute_with_error_handling insert_documents error_handler docs.

Definition _handle_result (result : value)
    (func : option (value -> outcome value)) (validate : bool) : M value :=
  (* the local [validated_docs] is bound only when [validate] holds *)
  validated_docs ←
    (if validate then v ← _validate_docs result; mret (Some v)
     else mret None);
  match func with
  | Some f =>
      match validated_docs with
      | Some v => lift (f v)
      | None => raise (UnboundLocalError "validated_docs")
      end
  | None => mret result
  end.

Definition find (query : mapping) (pipeline_steps : option (list stage))
    (handle_func : option (value -> outcome value)) : M value :=
  result ← _execute_find query pipeline_steps;
  _handle_result result handle_func false.

Definition find_by_id (document_id : pyval)
    (pipeline_steps : option (list stage))
    (handle_func : option (value -> outcome value)) : M value :=
  find {["_id" := document_id]} pipeline_steps handle_func.

(** [result.matched_count] *)
Definition matched_count_attr (result : value) : M Z :=
  match result with
  | VUpdateResult r => mret (matched_count r)
  | _ => raise (AttributeError "matched_count")
  end.

(** Line 63 reads [self.execute_with_handling] and line 70
    [self.find_one]: both go through the attribute lookup of the
    instance before anything is called. *)
Definition _execute_update (func : update_method) (query : mapping)
    (update_data : mapping) : M value :=
  self_getattr "execute_with_handling";;
  result ← _execute_with_error_handling
             (λ kwargs, update_method_call func kwargs.1 kwargs.2)
             error_handler (query, SetFields update_data);
  count ← matched_count_attr result;
  if decide (0 < count)%Z then
    if decide (func = UpdateOne)
    then self_getattr "find_one";; find query (Some []) None
    else find query (Some []) None
  else
    mret (if decide (func = UpdateOne) then VNone else VList []).

Definition _execute_delete (func : mapping -> M value) (query : mapping)
    : M value :=
  result ← _execute_with_error_handling func error_handler query;
  mret result.

Definition insert_many (docs : list mapping) : M value :=
  ids ← comprehension (λ _, ObjectId) docs;
  _execute_insertion insert_many_method (VList (VDict <$> docs)) (IdIn ids).

Definition insert_one (doc : mapping) : M value :=
  id ← ObjectId;
  _execute_insertion insert_many_method (VDict doc) (IdIn [id]).

(** [document_data] is the caller's dictionary, a cell of the heap:
    [document_data["_id"] = document_id] writes into it, and
    [insert_one] then reads what the cell holds. *)
Definition insert_by_id (document_id : pyval) (document_data : nat)
    : M value := λ w,
  match heap w !! document_data with
  | Some d =>
      let d' := <["_id" := document_id]> d in
      insert_one d' (set_heap (<[document_data := d']> (heap w)) w)
  | None =>
      (Raise (TypeError "object does not support item assignment"), w)
  end.

Definition update_one (query update_data : mapping) : M value :=
  _execute_update UpdateOne query update_data.

Definition update_many (query update_data : mapping) : M value :=
  _execute_update UpdateMany query update_data.


Definition delete_one (query : mapping) : M value :=
  _execute_delete (delete_method_call DeleteOne) query.

Definition delete_many (query : mapping) : M value :=
  _execute_delete (delete_method_call DeleteMany) query.

Definition delete_by_id (document_id : pyval) : M value :=
  delete_one {["_id" := document_id]}.

(** *** Reading a run *)

(** What the boundary does with a failure: the handler runs, and [None]
    comes back if the handler returns. *)
Definition handed_over (e : exn) : M value := error_handler e;; mret VNone.

(** The events a call appended to the log of [w]. *)
Definition events_since (w w' : world) : list event :=
  drop (length (trace w)) (trace w').

(** The handler call that follows a store call made inside the boundary:
    one if the call failed, none otherwise. *)
Definition after_call {A} (r : outcome A) : list event :=
  match r with
  | Ret _ => []
  | Raise e => [EvHandleError e]
  end.

(** The pipeline [find_agg] hands to the driver. *)
Definition find_pipeline (query : mapping)
    (pipeline_steps : option (list stage)) : list stage :=
  if truthy pipeline_steps then Match query :: default [] pipeline_steps
  else [Match query].
End Mediator.
End BaseCollection.

(** ** Schemas, and collaborators to run the mediator against *)

Module Schema.
Import BaseDocument.

(** The attribute names of a model class. *)
Definition declared_names (extra : list field) : list string :=
  fname <$> model_fields extra.

(** A coercion that accepts what it produces, and the field's default,
    unchanged. *)
Definition stable_field (f : field) : Prop :=
  (∀ v y, ftype f v = Some y → ftype f y = Some y) ∧
  (∀ d, fdefault f = Some d → ftype f d = Some d).

(** What a class statement gives for free: attribute names are distinct and
    the schema engine keeps names with a leading underscore out of the
    fields, [_id] among them. *)
Definition class_fields (extra : list field) : Prop :=
  NoDup (declared_names extra) ∧ "_id" ∉ declared_names extra.

(** [class Named(BaseDocument): name: str] *)
Definition name_field : field :=
  Field "name"
    (λ v, match v with
          | PStr s => Some (PStr s)
          | PInt z => Some (PStr (py_str (PInt z)))
          | PBool b => Some (PStr (py_str (PBool b)))
          | _ => None
          end)
    None.

(** Validation of a list of documents, stopping at the first failure. *)
Fixpoint validate_all (extra : list field) (docs : list mapping)
  : outcome (list model) :=
  match docs with
  | [] => Ret []
  | d :: rest =>
      match validate extra d with
      | Ret m =>
          match validate_all extra rest with
          | Ret ms => Ret (m :: ms)
          | Raise e => Raise e
          end
      | Raise e => Raise e
      end
  end.

(** The typed construction accepts field [f] of [values]: the value present
    has the declared type, or the field is absent and has a default. *)
Definition field_accepted (values : mapping) (f : field) : Prop :=
  match values !! fname f with
  | Some x => is_Some (ftype f x)
  | None => is_Some (fdefault f)
  end.

Global Instance field_accepted_dec values f : Decision (field_accepted values f).
Proof. unfold field_accepted. destruct (values !! fname f); apply _. Defined.
End Schema.

Module Memory.
Import BaseDocument BaseCollection.

(** A store that keeps its documents in a list. *)

Definition matches (query doc : mapping) : bool :=
  bool_decide (map_Forall (λ k v, doc !! k = Some v) query).

Definition apply_update (u : update_spec) (doc : mapping) : mapping :=
  match u with
  | SetFields update_data => update_data ∪ doc
  end.

Fixpoint update_first (query : mapping) (u : update_spec)
    (docs : list mapping) : list mapping :=
  match docs with
  | [] => []
  | d :: rest =>
      if matches query d then apply_update u d :: rest
      else d :: update_first query u rest
  end.

Fixpoint delete_first (query : mapping) (docs : list mapping)
  : list mapping :=
  match docs with
  | [] => []
  | d :: rest =>
      if matches query d then rest else d :: delete_first query rest
  end.

Definition run_stage (docs : list mapping) (s : stage) : list mapping :=
  match s with
  | Match query => filter (λ d, matches query d = true) docs
  | Stage _ _ => docs
  end.

Definition count_matches (query : mapping) (docs : list mapping) : nat :=
  length (filter (λ d, matches query d = true) docs).

Definition memory_store : Collection (list mapping) := {|
  aggregate pipeline docs := (Ret (foldl run_stage docs pipeline), docs);
  collection_insert_many batch docs :=
    match batch with
    | [] => (Raise (TypeError "documents must be a non-empty list"), docs)
    | _ =>
        (Ret {| inserted_ids := (λ d, default PNone (d !! "_id")) <$> batch |},
         docs ++ batch)
    end;
  collection_update_one query u docs :=
    let n := Z.of_nat (count_matches query docs `min` 1) in
    (Ret {| matched_count := n; modified_count := n |},
     update_first query u docs);
  collection_update_many query u docs :=
    let n := Z.of_nat (count_matches query docs) in
    (Ret {| matched_count := n; modified_count := n |},
     (λ d, if matches query d then apply_update u d else d) <$> docs);
  collection_delete_one query docs :=
    (Ret {| deleted_count := Z.of_nat (count_matches query docs `min` 1) |},
     delete_first query docs);
  collection_delete_many query docs :=
    (Ret {| deleted_count := Z.of_nat (count_matches query docs) |},
     filter (λ d, matches query d ≠ true) docs)
|}.

(** A handler that records the exception and returns. *)
Definition logging_handler : ErrorHandler (list exn) := {|
  handle_error e seen := (Ret (), seen ++ [e])
|}.

(** A handler that lets validation failures pass and raises the rest. *)
Definition strict_handler : ErrorHandler (list exn) := {|
  handle_error e seen :=
    match e with
    | ValidationError _ => (Ret (), seen ++ [e])
    | _ => (Raise e, seen ++ [e])
    end
|}.

(** A handler that raises every exception again, wrapped as a classified
    error. *)
Definition classifying_handler : ErrorHandler (list exn) := {|
  handle_error e seen := (Raise (Classified "handled" e), seen ++ [e])
|}.

Definition empty_world : @world (list mapping) (list exn) :=
  World [] [] ∅ 0 [].

Definition alice : mapping :=
  {[ "name" := PStr "alice"; "_id" := PObjectId "65a1" ]}.

Definition alice_stored : mapping :=
  {[ "name" := PStr "alice"; "age" := PInt 30 ]}.

Definition nameless : mapping := {[ "age" := PInt 3 ]}.

(** A store that cannot be reached: every call raises. *)
Definition unreachable_store : Collection unit := {|
  aggregate _ u := (Raise (StoreError 503), u);
  collection_insert_many _ u := (Raise (StoreError 503), u);
  collection_update_one _ _ u := (Raise (StoreError 503), u);
  collection_update_many _ _ u := (Raise (StoreError 503), u);
  collection_delete_one _ u := (Raise (StoreError 503), u);
  collection_delete_many _ u := (Raise (StoreError 503), u)
|}.

Definition offline_world : @world unit (list exn) := World () [] ∅ 0 [].

(** A world whose store holds one document. *)
Definition one_document : @world (list mapping) (list exn) :=
  World [alice_stored] [] ∅ 0 [].
End Memory.

(** * Properties of the document model *)

Section DocumentFacts.
Import BaseDocument Schema.

Lemma handle_objectid_pops (raw : mapping) :
  handle_objectid raw !! "_id" = None.
Proof.
  unfold handle_objectid. destruct (raw !! "_id") eqn:Hid; [|done].
  rewrite lookup_insert_ne; [|done]. apply lookup_delete_eq.
Qed.

Lemma handle_objectid_mongoid (raw : mapping) (x : pyval) :
  raw !! "_id" = Some x →
  handle_objectid raw !! "mongoid" = Some (PStr (py_str x)).
Proof.
  intros Hid. unfold handle_objectid. rewrite Hid. apply lookup_insert_eq.
Qed.

(** The typed construction yields declared attributes only. *)
Lemma validate_fields_undeclared fs (values : mapping) vals errs k :
  validate_fields fs values = (vals, errs) →
  k ∉ fname <$> fs →
  vals !! k = None.
Proof.
  revert vals errs.
  induction fs as [|f fs IH]; intros vals errs Hv Hk; simpl in *.
  - by inversion Hv.
  - apply not_elem_of_cons in Hk as [Hne Hk].
    destruct (validate_fields fs values) as [vals0 errs0].
    specialize (IH vals0 errs0 eq_refl Hk).
    destruct (values !! fname f) as [x|];
      [destruct (ftype f x)|destruct (fdefault f)];
      inversion Hv; subst; try done;
      by rewrite lookup_insert_ne.
Qed.

Lemma dict_lookup (r : model) (k : string) :
  dict r !! k = if decide (k = "mongoid") then None else model_dict r !! k.
Proof.
  unfold dict. case_decide as Hk.
  - subst. apply map_lookup_filter_None. right. intros x _ Hne. by apply Hne.
  - destruct (model_dict r !! k) as [x|] eqn:Hx.
    + by apply map_lookup_filter_Some.
    + apply map_lookup_filter_None. by left.
Qed.

(** Accepted input is accepted again, attribute for attribute, by any
    mapping that agrees with the record on the declared names. *)
Lemma validate_fields_again fs (values values' : mapping) vals :
  NoDup (fname <$> fs) →
  Forall stable_field fs →
  validate_fields fs values = (vals, []) →
  (∀ f, f ∈ fs → values' !! fname f = vals !! fname f) →
  validate_fields fs values' = (vals, []).
Proof.
  revert vals.
  induction fs as [|f fs IH]; intros vals Hnd Hst Hv Hag; simpl in *.
  - done.
  - apply NoDup_cons in Hnd as [Hf Hnd].
    apply Forall_cons in Hst as [[Hty Hdf] Hst].
    destruct (validate_fields fs values) as [vals0 errs0] eqn:Hrest.
    assert (∃ y, vals = <[fname f := y]> vals0 ∧ errs0 = [] ∧
                 ftype f y = Some y) as (y & -> & -> & Hy).
    { destruct (values !! fname f) as [x|].
      - destruct (ftype f x) as [y|] eqn:Hx; inversion Hv; subst.
        exists y. eauto.
      - destruct (fdefault f) as [d|] eqn:Hd; inversion Hv; subst.
        exists d. eauto. }
    rewrite (IH vals0); [|done..|].
    + rewrite (Hag f); [|left]. by rewrite lookup_insert_eq, Hy.
    + intros g Hg. rewrite (Hag g); [|by right].
      apply lookup_insert_ne. intros Heq. apply Hf.
      rewrite Heq. by apply list_elem_of_fmap_2.
Qed.

Lemma optional_str_stable : stable_field mongoid_field.
Proof.
  split; simpl.
  - intros [| | | |] y Hv; simplify_eq/=; done.
  - intros d Hd. by simplify_eq.
Qed.

(** A record always carries the identity attribute. *)
Lemma validate_mongoid extra (raw : mapping) r :
  validate extra raw = Ret r → is_Some (mongoid r).
Proof.
  unfold validate, mongoid. simpl.
  destruct (validate_fields extra _) as [vals errs].
  destruct (handle_objectid raw !! "mongoid") as [x|].
  - destruct (optional_str x); destruct errs; intros ?; simplify_eq/=.
    rewrite lookup_insert_eq. eauto.
  - destruct errs; intros ?; simplify_eq/=. rewrite lookup_insert_eq. eauto.
Qed.

Lemma validate_relocates_identity_aux extra (raw : mapping) (x : pyval) r :
  "_id" ∉ declared_names extra →
  raw !! "_id" = Some x →
  validate extra raw = Ret r →
  mongoid r = Some (PStr (py_str x)) ∧ model_dict r !! "_id" = None.
Proof.
  intros Hdecl Hid Hv. unfold validate, mongoid in *.
  destruct (validate_fields _ _) as [vals errs] eqn:Hf.
  destruct errs; [|done]. inversion Hv; subst; simpl. split.
  - simpl in Hf. destruct (validate_fields extra _) as [vals0 errs0].
    rewrite (handle_objectid_mongoid _ _ Hid) in Hf. simpl in Hf.
    simplify_eq. apply lookup_insert_eq.
  - eapply validate_fields_undeclared; [exact Hf|exact Hdecl].
Qed.

(** C7. For a mapping that holds the native identity field [_id] with value
    [x], a successful validation yields a record whose [mongoid] is the
    string form of [x]; the mapping handed to the typed construction has no
    [_id] any more, and neither [mongoid] nor [_id] appears in the
    serialized record. *)
Theorem validate_relocates_identity extra (raw : mapping) (x : pyval) r :
  "_id" ∉ declared_names extra →
  raw !! "_id" = Some x →
  validate extra raw = Ret r →
  mongoid r = Some (PStr (py_str x)) ∧
  handle_objectid raw !! "_id" = None ∧
  model_dict r !! "_id" = None ∧
  dict r !! "mongoid" = None ∧
  dict r !! "_id" = None.
Proof.
  intros Hdecl Hid Hv.
  destruct (validate_relocates_identity_aux _ _ _ _ Hdecl Hid Hv)
    as [Hm Hnone].
  split_and!; [done|apply handle_objectid_pops|done| |].
  - rewrite dict_lookup. by case_decide.
  - rewrite dict_lookup. by case_decide.
Qed.

(** With [_id] present, [BaseDocument] itself accepts every mapping. *)
Lemma base_document_accepts_identity (raw : mapping) (x : pyval) :
  raw !! "_id" = Some x → ∃ r, validate [] raw = Ret r.
Proof.
  intros Hid. unfold validate. simpl.
  rewrite (handle_objectid_mongoid _ _ Hid). simpl. eauto.
Qed.

Lemma validate_relocates_identity_witness :
  mongoid (Model {[ "mongoid" := PStr "65a1"; "name" := PStr "alice" ]})
    = Some (PStr (py_str (PObjectId "65a1"))) ∧
  dict (Model {[ "mongoid" := PStr "65a1"; "name" := PStr "alice" ]})
    !! "mongoid" = None.
Proof.
  destruct (validate_relocates_identity [name_field] Memory.alice
              (PObjectId "65a1")
              (Model {[ "mongoid" := PStr "65a1"; "name" := PStr "alice" ]}))
    as (H1 & _ & _ & H2 & _).
  - compute_done.
  - reflexivity.
  - vm_compute. reflexivity.
  - split; assumption.
Defined.


(** Re-validation of the serialized record joined with its own identity
    attribute. *)
Lemma validate_dict_join_mongoid extra (raw : mapping) r id :
  class_fields extra →
  Forall stable_field extra →
  validate extra raw = Ret r →
  mongoid r = Some id →
  validate extra (dict r ∪ {[ "mongoid" := id ]}) = Ret r.
Proof.
  intros [Hnd Hdecl] Hst Hv Hm.
  assert (∀ k, (dict r ∪ {[ "mongoid" := id ]}) !! k = model_dict r !! k)
    as Hlk.
  { intros k. rewrite lookup_union, dict_lookup. case_decide as Hk.
    - subst k. unfold mongoid in Hm. by rewrite lookup_singleton_eq, Hm.
    - rewrite lookup_singleton_ne; [|done].
      by destruct (model_dict r !! k). }
  unfold validate in *.
  destruct (validate_fields _ (handle_objectid raw)) as [vals errs] eqn:Hf.
  destruct errs; [|done]. injection Hv as <-.
  assert (handle_objectid (dict (Model vals) ∪ {[ "mongoid" := id ]})
          = dict (Model vals) ∪ {[ "mongoid" := id ]}) as ->.
  { unfold handle_objectid. rewrite Hlk. simpl.
    by rewrite (validate_fields_undeclared _ _ _ _ _ Hf Hdecl). }
  erewrite validate_fields_again; [done|exact Hnd| |exact Hf|].
  - apply Forall_cons. split; [apply optional_str_stable|done].
  - intros f _. apply Hlk.
Qed.



(** The same round trip through the native field: joining [_id] with the
    value the raw mapping had gives the record back as well. *)
Lemma validate_dict_round_trip_native extra (raw : mapping) (x : pyval) r :
  class_fields extra →
  Forall stable_field extra →
  raw !! "_id" = Some x →
  validate extra raw = Ret r →
  validate extra (dict r ∪ {[ "_id" := x ]}) = Ret r.
Proof.
  intros Hcl Hst Hid Hv.
  destruct (validate_relocates_identity_aux extra raw x r) as (Hm & Hno);
    [apply Hcl|done..|].
  pose proof (validate_dict_join_mongoid _ _ _ _ Hcl Hst Hv Hm) as Hrt.
  unfold validate in *.
  assert (handle_objectid (dict r ∪ {[ "_id" := x ]})
          = <["mongoid" := PStr (py_str x)]> (dict r)) as ->.
  { unfold handle_objectid.
    rewrite lookup_union, dict_lookup, Hno, lookup_singleton_eq. simpl.
    f_equal. apply map_eq. intros k.
    destruct (decide (k = "_id")) as [->|Hk].
    - rewrite lookup_delete_eq, dict_lookup. by case_decide.
    - rewrite lookup_delete_ne, lookup_union, lookup_singleton_ne by done.
      by destruct (dict r !! k). }
  assert (handle_objectid (dict r ∪ {[ "mongoid" := PStr (py_str x) ]})
          = <["mongoid" := PStr (py_str x)]> (dict r)) as Heq; [|by rewrite <- Heq].
  unfold handle_objectid.
  rewrite lookup_union, dict_lookup, Hno, lookup_singleton_ne by done.
  simpl. apply map_eq. intros k.
  destruct (decide (k = "mongoid")) as [->|Hk].
  - rewrite lookup_insert_eq, lookup_union, dict_lookup, lookup_singleton_eq.
    by case_decide.
  - rewrite lookup_insert_ne, lookup_union, lookup_singleton_ne by done.
    by destruct (dict r !! k).
Qed.
End DocumentFacts.

(** * Properties of the collection mediator *)

Section MediatorFacts.
Import BaseDocument BaseCollection Schema.
Context {db hs : Type} `{!Collection db} `{!ErrorHandler hs}.
Variable document_fields : list field.

Implicit Types (w : @world db hs) (docs : list mapping) (e : exn).

Lemma bind_run {A B} (m : M A) (k : A → M B) w :
  (m ≫= k) w =
  match m w with
  | (Ret a, w') => k a w'
  | (Raise e, w') => (Raise e, w')
  end.
Proof. reflexivity. Qed.

Lemma boundary_run {A} (func : A → M value) (args : A) w :
  _execute_with_error_handling func error_handler args w =
  match func args w with
  | (Ret v, w') => (Ret v, w')
  | (Raise e, w') => handed_over e w'
  end.
Proof. reflexivity. Qed.

Lemma handed_over_run e w :
  handed_over e w =
  let w' := log (EvHandleError e)
              (set_handler_state (handle_error e (handler_state w)).2 w) in
  match (handle_error e (handler_state w)).1 with
  | Ret _ => (Ret VNone, w')
  | Raise e' => (Raise e', w')
  end.
Proof.
  unfold handed_over. rewrite bind_run. unfold error_handler.
  by destruct (handle_error e (handler_state w)) as [[[]|e'] h].
Qed.

Lemma comprehension_ObjectId {A} (items : list A) w :
  ∃ ids, comprehension (λ _, ObjectId) items w
         = (Ret ids, set_next_oid (length items + next_oid w) w).
Proof.
  revert w. induction items as [|x items IH]; intros w; simpl.
  - exists []. by destruct w.
  - rewrite bind_run. unfold ObjectId at 1.
    destruct (IH (set_next_oid (S (next_oid w)) w)) as [ids Hids].
    rewrite bind_run, Hids. eexists. unfold mret, M_ret.
    f_equal. destruct w; unfold set_next_oid; simpl. f_equal. lia.
Qed.

Lemma comprehension_document_model docs w :
  comprehension (document_model document_fields) (VDict <$> docs) w =
  (match validate_all document_fields docs with
   | Ret ms => Ret (VModel <$> ms)
   | Raise e => Raise e
   end, w).
Proof.
  revert w. induction docs as [|d docs IH]; intros w; simpl; [done|].
  rewrite bind_run.
  destruct (validate document_fields d) as [m|e]; [|done].
  unfold mret at 1, M_ret at 1. rewrite bind_run, IH.
  by destruct (validate_all document_fields docs).
Qed.

Lemma comprehension_dict_method (ms : list model) w :
  comprehension (dict_method (db:=db) (hs:=hs)) (VModel <$> ms) w
  = (Ret (dict <$> ms), w).
Proof.
  revert w. induction ms as [|m ms IH]; intros w; simpl; [done|].
  rewrite bind_run. unfold mret at 1, M_ret at 1.
  by rewrite bind_run, IH.
Qed.

Lemma validate_all_fails docs d e :
  d ∈ docs → validate document_fields d = Raise e →
  ∃ e', validate_all document_fields docs = Raise e'.
Proof.
  intros Hin Hd. induction docs as [|d' docs IH]; [by inversion Hin|].
  simpl. apply elem_of_cons in Hin as [<-|Hin].
  - rewrite Hd. eauto.
  - destruct (validate document_fields d'); [|eauto].
    destruct (IH Hin) as [e' ->]. eauto.
Qed.

Lemma validate_docs_run docs w :
  _validate_docs document_fields (VList (VDict <$> docs)) w =
  match validate_all document_fields docs with
  | Ret ms => (Ret (VList (VModel <$> ms)), w)
  | Raise e => handed_over e w
  end.
Proof.
  unfold _validate_docs. rewrite boundary_run. simpl.
  rewrite bind_run. unfold mret at 1, M_ret at 1.
  rewrite bind_run, comprehension_document_model.
  by destruct (validate_all document_fields docs).
Qed.

(** *** The update path *)

Lemma self_getattr_missing (name : string) w :
  name ∉ BaseCollection_attributes →
  self_getattr name w = (Raise (AttributeError name), w).
Proof. intros Hn. unfold self_getattr. by rewrite decide_False. Qed.

Lemma execute_update_run func (query update_data : mapping) w :
  _execute_update document_fields func query update_data w
  = (Raise (AttributeError "execute_with_handling"), w).
Proof.
  unfold _execute_update. rewrite bind_run, self_getattr_missing; [done|].
  compute_done.
Qed.

(** The boundary lets an exception out only when the handler raised it. *)
Lemma boundary_raises_through_handler {A} (func : A → M value) (args : A)
    w w' e :
  _execute_with_error_handling func error_handler args w = (Raise e, w') →
  ∃ e0 w0, func args w = (Raise e0, w0) ∧
           (handle_error e0 (handler_state w0)).1 = Raise e.
Proof.
  rewrite boundary_run. destruct (func args w) as [[v|e0] w0]; [done|].
  rewrite handed_over_run.
  destruct (handle_error e0 (handler_state w0)).1 eqn:Hh; intros Heq;
    simplify_eq/=. eauto.
Qed.

(** The delete operations, which do call the boundary, raise only what the
    handler raised on a failure of the store call. *)
Lemma delete_raises_through_handler f (query : mapping) w w' e :
  _execute_delete (delete_method_call f) query w = (Raise e, w') →
  ∃ e0 w0, delete_method_call f query w = (Raise e0, w0) ∧
           (handle_error e0 (handler_state w0)).1 = Raise e.
Proof.
  unfold _execute_delete. rewrite bind_run.
  destruct (_execute_with_error_handling _ _ _ w) as [[v|e1] w1] eqn:Hb;
    [done|].
  intros Heq. simplify_eq. by eapply boundary_raises_through_handler.
Qed.


(** C2. Where the store would acknowledge a match, [update_one] and
    [update_many] do not return the documents as they are after the patch:
    they raise [AttributeError], the store is never asked to update and no
    read-back is issued. *)
Theorem update_matched_no_read_back (query update_data : mapping) w :
  (∀ ack d,
     collection_update_one query (SetFields update_data) (store w)
       = (Ret ack, d) →
     (0 < matched_count ack)%Z →
     update_one document_fields query update_data w
       = (Raise (AttributeError "execute_with_handling"), w)) ∧
  (∀ ack d,
     collection_update_many query (SetFields update_data) (store w)
       = (Ret ack, d) →
     (0 < matched_count ack)%Z →
     update_many document_fields query update_data w
       = (Raise (AttributeError "execute_with_handling"), w)).
Proof. split; intros ack d _ _; apply execute_update_run. Qed.

(** C3. Where the store would acknowledge no match, [update_one] does not
    return [None] and [update_many] does not return the empty list: both
    raise [AttributeError]. No read-back is issued, the log being
    unchanged. *)
Theorem update_unmatched_raises (query update_data : mapping) w :
  (∀ ack d,
     collection_update_one query (SetFields update_data) (store w)
       = (Ret ack, d) →
     matched_count ack = 0%Z →
     (update_one document_fields query update_data w).1 ≠ Ret VNone ∧
     events_since w (update_one document_fields query update_data w).2
       = []) ∧
  (∀ ack d,
     collection_update_many query (SetFields update_data) (store w)
       = (Ret ack, d) →
     matched_count ack = 0%Z →
     (update_many document_fields query update_data w).1 ≠ Ret (VList []) ∧
     events_since w (update_many document_fields query update_data w).2
       = []).
Proof.
  unfold update_one, update_many, events_since.
  split; intros ack d _ _; rewrite execute_update_run; simpl;
    (split; [done|by rewrite drop_all]).
Qed.

(** *** The find path *)

Lemma execute_find_run (query : mapping) pipeline_steps w :
  _execute_find query pipeline_steps w =
  match collection_aggregate (find_pipeline query pipeline_steps) w with
  | (Ret v, w') => (Ret v, w')
  | (Raise e, w') => handed_over e w'
  end.
Proof.
  unfold _execute_find. rewrite boundary_run. unfold find_pipeline. simpl.
  by destruct (truthy pipeline_steps).
Qed.

Lemma collection_aggregate_run pipeline w :
  collection_aggregate pipeline w =
  (match (aggregate pipeline (store w)).1 with
   | Ret found => Ret (VList (VDict <$> found))
   | Raise e => Raise e
   end,
   log (EvAggregate pipeline)
     (set_store (aggregate pipeline (store w)).2 w)).
Proof.
  unfold collection_aggregate.
  by destruct (aggregate pipeline (store w)) as [r d].
Qed.

(** Without a post-processing function [find] returns the matched
    documents as the driver gave them. *)
Lemma find_returns_raw_documents (query : mapping) pipeline_steps w found d :
  aggregate (find_pipeline query pipeline_steps) (store w) = (Ret found, d) →
  find document_fields query pipeline_steps None w
  = (Ret (VList (VDict <$> found)),
     log (EvAggregate (find_pipeline query pipeline_steps)) (set_store d w)).
Proof.
  intros Hagg. unfold find. rewrite bind_run, execute_find_run.
  by rewrite collection_aggregate_run, Hagg.
Qed.

(** C6. With a post-processing function [find] returns no value at all:
    once the aggregation has produced the matched documents the call
    raises [UnboundLocalError], the function never being applied. *)
Theorem find_with_handle_func_raises (query : mapping) pipeline_steps
    (f : value → outcome value) w :
  (∀ v, (find document_fields query pipeline_steps (Some f) w).1 ≠ Ret v) ∧
  (∀ found d,
     aggregate (find_pipeline query pipeline_steps) (store w)
       = (Ret found, d) →
     find document_fields query pipeline_steps (Some f) w
     = (Raise (UnboundLocalError "validated_docs"),
        log (EvAggregate (find_pipeline query pipeline_steps))
          (set_store d w))).
Proof.
  unfold find. rewrite bind_run, execute_find_run, collection_aggregate_run.
  split.
  - intros v. destruct (aggregate _ (store w)) as [[found|e] d]; simpl.
    + done.
    + rewrite handed_over_run. simpl.
      by destruct (handle_error e (handler_state _)) as [[[]|e'] h].
  - intros found d ->. done.
Qed.

(** *** The insert path *)

Lemma insert_many_method_run (batch : list mapping) w :
  insert_many_method batch w =
  (match (collection_insert_many batch (store w)).1 with
   | Ret ack => Ret (VInsertResult ack)
   | Raise e => Raise e
   end,
   log (EvInsertMany batch)
     (set_store (collection_insert_many batch (store w)).2 w)).
Proof.
  unfold insert_many_method.
  by destruct (collection_insert_many batch (store w)) as [r d].
Qed.

Lemma insert_one_run (doc : mapping) w :
  insert_one document_fields doc w =
  let w1 := set_next_oid (S (next_oid w)) w in
  match validate document_fields doc with
  | Ret m =>
      match insert_many_method [dict m] w1 with
      | (Ret v, w2) => (Ret v, w2)
      | (Raise e, w2) => handed_over e w2
      end
  | Raise e => handed_over e w1
  end.
Proof.
  unfold insert_one. rewrite bind_run. unfold ObjectId at 1.
  unfold _execute_insertion. rewrite boundary_run. simpl.
  rewrite bind_run.
  destruct (validate document_fields doc) as [m|e]; [|done].
  unfold mret at 1, M_ret at 1. by rewrite bind_run.
Qed.

Lemma insert_many_run docs w :
  insert_many document_fields docs w =
  let w1 := set_next_oid (length docs + next_oid w) w in
  match validate_all document_fields docs with
  | Ret ms =>
      match insert_many_method (dict <$> ms) w1 with
      | (Ret v, w2) => (Ret v, w2)
      | (Raise e, w2) => handed_over e w2
      end
  | Raise e =>
      match handed_over e w1 with
      | (Ret _, w2) => handed_over (TypeError "object is not iterable") w2
      | (Raise e1, w2) => handed_over e1 w2
      end
  end.
Proof.
  unfold insert_many. rewrite bind_run.
  destruct (comprehension_ObjectId docs w) as [ids ->].
  unfold _execute_insertion. rewrite boundary_run. simpl.
  rewrite bind_run, validate_docs_run.
  destruct (validate_all document_fields docs) as [ms|e].
  - simpl. rewrite bind_run. unfold mret at 1, M_ret at 1.
    by rewrite bind_run, comprehension_dict_method.
  - rewrite handed_over_run. simpl.
    by destruct (handle_error e (handler_state _)) as [[[]|e1] h].
Qed.

Lemma handed_over_frame e w :
  store (handed_over e w).2 = store w ∧
  heap (handed_over e w).2 = heap w ∧
  trace (handed_over e w).2 = trace w ++ [EvHandleError e].
Proof.
  rewrite handed_over_run. simpl.
  by destruct (handle_error e (handler_state w)) as [[[]|e'] h].
Qed.

Lemma handed_over_outcome e w :
  (handed_over e w).1 =
  match (handle_error e (handler_state w)).1 with
  | Ret _ => Ret VNone
  | Raise e' => Raise e'
  end.
Proof.
  rewrite handed_over_run. simpl.
  by destruct (handle_error e (handler_state w)) as [[[]|e'] h].
Qed.

(** C5. When some document of the list fails validation, [insert_many]
    fails as a whole: the store is left as it was, the only calls that
    leave the mediator are two calls of the error handler (no insert is
    submitted), and the result is [None] or an exception, never an
    acknowledgment. *)
Theorem insert_many_all_or_nothing docs w :
  (∃ d e, d ∈ docs ∧ validate document_fields d = Raise e) →
  store (insert_many document_fields docs w).2 = store w ∧
  (∃ e1 e2, trace (insert_many document_fields docs w).2
            = trace w ++ [EvHandleError e1; EvHandleError e2]) ∧
  ((insert_many document_fields docs w).1 = Ret VNone ∨
   ∃ e, (insert_many document_fields docs w).1 = Raise e).
Proof.
  intros (d & e & Hin & Hd).
  destruct (validate_all_fails docs d e Hin Hd) as [e1 Hall].
  rewrite insert_many_run, Hall. cbv zeta.
  set (w1 := set_next_oid _ w).
  pose proof (handed_over_frame e1 w1) as (Hs1 & _ & Ht1).
  destruct (handed_over e1 w1) as [[v|e2] w2]; simpl in Hs1, Ht1.
  - pose proof (handed_over_frame (TypeError "object is not iterable") w2)
      as (Hs2 & _ & Ht2).
    pose proof (handed_over_outcome (TypeError "object is not iterable") w2)
      as Ho.
    destruct (handed_over _ w2) as [r w3]; simpl in *.
    rewrite Hs2, Hs1, Ht2, Ht1, <- app_assoc. split_and!; [done|eauto|].
    rewrite Ho. destruct (handle_error _ _).1; eauto.
  - pose proof (handed_over_frame e2 w2) as (Hs2 & _ & Ht2).
    pose proof (handed_over_outcome e2 w2) as Ho.
    destruct (handed_over _ w2) as [r w3]; simpl in *.
    rewrite Hs2, Hs1, Ht2, Ht1, <- app_assoc. split_and!; [done|eauto|].
    rewrite Ho. destruct (handle_error _ _).1; eauto.
Qed.



(** On a validation failure the list branch reaches the handler twice, the
    dictionary branch once, whatever the handler does. *)
Lemma insert_many_singleton_handles_twice (doc : mapping) e w :
  validate document_fields doc = Raise e →
  trace (insert_one document_fields doc w).2
    = trace w ++ [EvHandleError e] ∧
  ∃ e2, trace (insert_many document_fields [doc] w).2
        = trace w ++ [EvHandleError e; EvHandleError e2].
Proof.
  intros Hv. rewrite insert_many_run, insert_one_run. simpl. rewrite Hv.
  set (w1 := set_next_oid _ w).
  pose proof (handed_over_frame e w1) as (_ & _ & Ht1). split; [done|].
  destruct (handed_over e w1) as [[v|e2] w2]; simpl in Ht1.
  - eexists. destruct (handed_over_frame (TypeError "object is not iterable") w2)
      as (_ & _ & ->). by rewrite Ht1, <- app_assoc.
  - eexists. destruct (handed_over_frame e2 w2) as (_ & _ & ->).
    by rewrite Ht1, <- app_assoc.
Qed.

(** *** insert_by_id *)

Lemma insert_one_heap (doc : mapping) w :
  heap (insert_one document_fields doc w).2 = heap w.
Proof.
  rewrite insert_one_run. cbv zeta.
  destruct (validate document_fields doc) as [m|e].
  - rewrite insert_many_method_run.
    destruct (collection_insert_many _ _).1; [done|].
    by destruct (handed_over_frame e (log (EvInsertMany [dict m])
      (set_store (collection_insert_many [dict m]
         (store (set_next_oid (S (next_oid w)) w))).2
         (set_next_oid (S (next_oid w)) w)))) as (_ & -> & _).
  - by destruct (handed_over_frame e (set_next_oid (S (next_oid w)) w))
      as (_ & -> & _).
Qed.

(** C10. [insert_by_id] writes [_id] into the caller's own dictionary and
    then runs [insert_one] on it; whatever the insert does afterwards,
    success or failure, the caller's dictionary keeps the new key. *)
Theorem insert_by_id_mutates_caller_mapping (document_id : pyval)
    (document_data : nat) (d : mapping) w :
  heap w !! document_data = Some d →
  insert_by_id document_fields document_id document_data w
  = insert_one document_fields (<["_id" := document_id]> d)
      (set_heap (<[document_data := <["_id" := document_id]> d]> (heap w)) w)
  ∧
  heap (insert_by_id document_fields document_id document_data w).2
    !! document_data
  = Some (<["_id" := document_id]> d).
Proof.
  intros Hd. unfold insert_by_id. rewrite Hd. split; [done|].
  rewrite insert_one_heap. simpl. apply lookup_insert_eq.
Qed.
End MediatorFacts.

(** * The mediator on the in-memory store *)

Section Scenarios.
Import BaseDocument BaseCollection Schema Memory.

Local Abbreviation logging f := (f (list mapping) (list exn) memory_store logging_handler [name_field]).
Local Abbreviation strict f := (f (list mapping) (list exn) memory_store strict_handler [name_field]).
Local Abbreviation classifying f := (f (list mapping) (list exn) memory_store classifying_handler [name_field]).



Lemma update_matched_no_read_back_witness :
  (collection_update_one (Collection:=memory_store)
     {[ "name" := PStr "alice" ]} (SetFields {[ "age" := PInt 31 ]})
     [alice_stored]).1
    = Ret {| matched_count := 1; modified_count := 1 |} ∧
  logging (@update_one) {[ "name" := PStr "alice" ]} {[ "age" := PInt 31 ]}
    one_document
  = (Raise (AttributeError "execute_with_handling"), one_document).
Proof.
  split; [vm_compute; reflexivity|].
  eapply (proj1 (logging (@update_matched_no_read_back) _ _ one_document)).
  - vm_compute. reflexivity.
  - simpl. lia.
Defined.

Lemma update_unmatched_raises_witness :
  (collection_update_one (Collection:=memory_store)
     {[ "name" := PStr "bob" ]} (SetFields {[ "age" := PInt 31 ]})
     [alice_stored]).1
    = Ret {| matched_count := 0; modified_count := 0 |} ∧
  (logging (@update_one) {[ "name" := PStr "bob" ]} {[ "age" := PInt 31 ]}
     one_document).1 ≠ Ret VNone.
Proof.
  split; [vm_compute; reflexivity|].
  eapply (proj1 (logging (@update_unmatched_raises) _ _ one_document)).
  - vm_compute. reflexivity.
  - reflexivity.
Defined.


Lemma insert_many_all_or_nothing_witness :
  store (logging (@insert_many) [alice; nameless] empty_world).2 = [].
Proof.
  apply (logging (@insert_many_all_or_nothing) [alice; nameless] empty_world).
  exists nameless, (ValidationError ["name"]). split.
  - right. left.
  - vm_compute. reflexivity.
Defined.

Lemma find_with_handle_func_raises_witness :
  logging (@find) {[ "name" := PStr "alice" ]} (Some [])
    (Some (λ v, Ret v)) one_document
  = (Raise (UnboundLocalError "validated_docs"),
     log (EvAggregate (find_pipeline {[ "name" := PStr "alice" ]} (Some [])))
       (set_store [alice_stored] one_document)).
Proof.
  apply (proj2 (logging (@find_with_handle_func_raises) _ _ _ one_document)
           [alice_stored]).
  vm_compute. reflexivity.
Defined.


Lemma insert_by_id_mutates_caller_mapping_witness :
  heap (logging (@insert_by_id) (PObjectId "65a1") 7
          (World [] [] {[ 7 := nameless ]} 0 [])).2 !! 7
  = Some (<["_id" := PObjectId "65a1"]> nameless).
Proof.
  apply (logging (@insert_by_id_mutates_caller_mapping)). reflexivity.
Defined.
End Scenarios.


(** * More on the document model *)

Section DocumentModel.
Import BaseDocument Schema.

Lemma handle_objectid_lookup (raw : mapping) (k : string) :
  handle_objectid raw !! k =
  match raw !! "_id" with
  | Some x =>
      if decide (k = "mongoid") then Some (PStr (py_str x))
      else if decide (k = "_id") then None else raw !! k
  | None => raw !! k
  end.
Proof.
  unfold handle_objectid. destruct (raw !! "_id") as [x|] eqn:Hid; [|done].
  repeat case_decide; subst.
  - apply lookup_insert_eq.
  - rewrite lookup_insert_ne by done. apply lookup_delete_eq.
  - by rewrite lookup_insert_ne, lookup_delete_ne.
Qed.

(** The root validator touches the two identity keys only. *)
Theorem handle_objectid_other_keys (raw : mapping) (k : string) :
  k ≠ "_id" → k ≠ "mongoid" → handle_objectid raw !! k = raw !! k.
Proof.
  intros H1 H2. rewrite handle_objectid_lookup.
  destruct (raw !! "_id"); [|done]. by rewrite !decide_False.
Qed.

(** Running the root validator on its own output changes nothing. *)
Theorem handle_objectid_idempotent (raw : mapping) :
  handle_objectid (handle_objectid raw) = handle_objectid raw.
Proof.
  unfold handle_objectid at 1. by rewrite handle_objectid_pops.
Qed.

Lemma validate_fields_ext fs (v1 v2 : mapping) :
  (∀ f, f ∈ fs → v1 !! fname f = v2 !! fname f) →
  validate_fields fs v1 = validate_fields fs v2.
Proof.
  induction fs as [|f fs IH]; intros Hag; simpl; [done|].
  rewrite IH, (Hag f); [done|left|]. intros g Hg. apply Hag. by right.
Qed.

(** Validation reads the declared attributes and [_id], nothing else: two
    mappings that agree on those validate alike. *)
Theorem validate_ignores_undeclared_keys extra (raw1 raw2 : mapping) :
  raw1 !! "_id" = raw2 !! "_id" →
  (∀ k, k ∈ declared_names extra → raw1 !! k = raw2 !! k) →
  validate extra raw1 = validate extra raw2.
Proof.
  intros Hid Hag. unfold validate.
  rewrite (validate_fields_ext _ (handle_objectid raw1) (handle_objectid raw2));
    [done|].
  intros f Hf. rewrite !handle_objectid_lookup, <- Hid.
  rewrite (Hag (fname f)); [done|]. by apply list_elem_of_fmap_2.
Qed.

Lemma validate_fields_keys fs (values : mapping) vals (k : string) :
  validate_fields fs values = (vals, []) →
  is_Some (vals !! k) ↔ k ∈ fname <$> fs.
Proof.
  revert vals. induction fs as [|f fs IH]; intros vals Hv; simpl in *.
  - simplify_eq. rewrite lookup_empty. split; [by intros [? ?]|by inversion 1].
  - destruct (validate_fields fs values) as [vals0 errs0].
    assert (∃ y, vals = <[fname f := y]> vals0 ∧ errs0 = []) as (y & -> & ->).
    { destruct (values !! fname f) as [x|];
        [destruct (ftype f x)|destruct (fdefault f)]; simplify_eq; eauto. }
    rewrite elem_of_cons, <- (IH vals0 eq_refl).
    destruct (decide (k = fname f)) as [->|Hne].
    + rewrite lookup_insert_eq. split; eauto.
    + rewrite lookup_insert_ne by done. split; [eauto|]. by intros [?|?].
Qed.

(** The serialized form of a record holds the declared attributes of the
    model class, each one, and nothing else; [mongoid] is left out. *)
Theorem dict_keys_are_declared_fields extra (raw : mapping) r (k : string) :
  validate extra raw = Ret r →
  is_Some (dict r !! k) ↔ k ∈ declared_names extra ∧ k ≠ "mongoid".
Proof.
  unfold validate. intros Hv.
  destruct (validate_fields _ _) as [vals errs] eqn:Hf.
  destruct errs; [|done]. injection Hv as <-.
  rewrite dict_lookup. simpl. case_decide as Hk.
  - split; [by intros [? ?]|by intros [_ ?]].
  - rewrite (validate_fields_keys _ _ _ k Hf). unfold declared_names.
    split; [by intros ?|by intros [? _]].
Qed.

Lemma validate_fields_errors fs (values : mapping) :
  (validate_fields fs values).2
  = fname <$> filter (λ f, ¬ field_accepted values f) fs.
Proof.
  induction fs as [|f fs IH]; simpl; [done|].
  destruct (validate_fields fs values) as [vals errs]. simpl in IH.
  rewrite filter_cons.
  destruct (decide (¬ field_accepted values f)) as [Hn|Hy];
    unfold field_accepted in *;
    destruct (values !! fname f) as [x|];
    [destruct (ftype f x)|destruct (fdefault f)
    |destruct (ftype f x)|destruct (fdefault f)]; simpl;
    try (by rewrite IH).
  - exfalso. apply Hn. eauto.
  - exfalso. apply Hn. eauto.
  - exfalso. apply Hy. by intros [? ?].
  - exfalso. apply Hy. by intros [? ?].
Qed.

(** A failed validation raises [ValidationError] and nothing else, and the
    error lists, in declaration order, exactly the attributes that are
    ill-typed or required and missing. *)
Theorem validate_reports_failing_fields extra (raw : mapping) e :
  validate extra raw = Raise e →
  e = ValidationError
        (fname <$> filter (λ f, ¬ field_accepted (handle_objectid raw) f)
                     (model_fields extra)) ∧
  ∃ f, f ∈ model_fields extra ∧ ¬ field_accepted (handle_objectid raw) f.
Proof.
  unfold validate. intros Hv.
  pose proof (validate_fields_errors (model_fields extra) (handle_objectid raw))
    as He.
  destruct (validate_fields _ _) as [vals errs]. simpl in He.
  destruct errs as [|n errs]; [done|]. injection Hv as <-. split; [by rewrite He|].
  destruct (filter _ (model_fields extra)) as [|f l] eqn:Hfl; [done|].
  assert (f ∈ filter (λ f, ¬ field_accepted (handle_objectid raw) f)
                (model_fields extra)) as Hin by (rewrite Hfl; left).
  apply list_elem_of_filter in Hin as [Hn Hin]. eauto.
Qed.

(** Validation succeeds exactly when every declared attribute is accepted. *)
Theorem validate_succeeds_iff extra (raw : mapping) :
  (∃ r, validate extra raw = Ret r) ↔
  Forall (field_accepted (handle_objectid raw)) (model_fields extra).
Proof.
  unfold validate.
  pose proof (validate_fields_errors (model_fields extra) (handle_objectid raw))
    as He.
  destruct (validate_fields _ _) as [vals errs]. simpl in He. split.
  - intros [r Hr]. destruct errs; [|done].
    apply Forall_forall. intros f Hf.
    destruct (decide (field_accepted (handle_objectid raw) f)) as [|Hn];
      [done|].
    symmetry in He. apply fmap_nil_inv in He.
    assert (f ∈ filter (λ f, ¬ field_accepted (handle_objectid raw) f)
                  (model_fields extra)) as Hin
      by by apply list_elem_of_filter.
    rewrite He in Hin. by inversion Hin.
  - intros Hall. destruct errs as [|n errs]; [eauto|]. exfalso.
    destruct (filter _ (model_fields extra)) as [|f l] eqn:Hfl; [done|].
    assert (f ∈ filter (λ f, ¬ field_accepted (handle_objectid raw) f)
                  (model_fields extra)) as Hin by (rewrite Hfl; left).
    apply list_elem_of_filter in Hin as [Hn Hin].
    apply Hn. by eapply Forall_forall in Hall.
Qed.

Lemma validate_mongoid_value extra (raw : mapping) r :
  validate extra raw = Ret r →
  mongoid r = match handle_objectid raw !! "mongoid" with
              | Some v => optional_str v
              | None => Some PNone
              end.
Proof.
  unfold validate, mongoid. simpl.
  destruct (validate_fields extra _) as [vals errs].
  destruct (handle_objectid raw !! "mongoid") as [x|].
  - destruct (optional_str x); destruct errs; intros ?; simplify_eq/=.
    apply lookup_insert_eq.
  - destruct errs; intros ?; simplify_eq/=. apply lookup_insert_eq.
Qed.

(** The identity attribute of a record is [None] or a string, never a value
    of another type. *)
Theorem mongoid_is_none_or_string extra (raw : mapping) r :
  validate extra raw = Ret r →
  mongoid r = Some PNone ∨ ∃ s, mongoid r = Some (PStr s).
Proof.
  intros Hv. pose proof (validate_mongoid _ _ _ Hv) as [v Hm].
  rewrite (validate_mongoid_value _ _ _ Hv) in Hm |- *.
  destruct (handle_objectid raw !! "mongoid") as [x|]; [|by left].
  destruct x; simplify_eq/=; eauto.
Qed.

(** Without [_id] in the input the identity attribute is what the caller
    gave as [mongoid], coerced to a string, and [None] when that is absent
    too. *)
Theorem validate_without_identity extra (raw : mapping) r :
  raw !! "_id" = None →
  validate extra raw = Ret r →
  mongoid r = match raw !! "mongoid" with
              | Some v => optional_str v
              | None => Some PNone
              end.
Proof.
  intros Hid Hv. rewrite (validate_mongoid_value _ _ _ Hv).
  by rewrite handle_objectid_lookup, Hid.
Qed.
End DocumentModel.

(** * More on the collection mediator *)

Section MediatorCalls.
Import BaseDocument BaseCollection Schema.
Context {db hs : Type} `{!Collection db} `{!ErrorHandler hs}.
Variable document_fields : list field.

Implicit Types (w : @world db hs) (docs : list mapping) (e : exn).

Lemma find_pipeline_eq (query : mapping) pipeline_steps :
  find_pipeline query pipeline_steps = Match query :: default [] pipeline_steps.
Proof. by destruct pipeline_steps as [[|s l]|]. Qed.

Lemma handle_result_unvalidated (result : value) handle_func w :
  (_handle_result document_fields result handle_func false w).2 = w.
Proof.
  unfold _handle_result. rewrite bind_run. unfold mret at 1, M_ret at 1.
  destruct handle_func; done.
Qed.

(** Whatever the post-processing function and the outcome, [find] issues one
    store call, an aggregation whose pipeline is the match stage on the
    query followed by the caller's stages; the handler is called once if
    that call fails and not otherwise. *)
Theorem find_issues_one_aggregate (query : mapping) pipeline_steps
    handle_func w :
  trace (find document_fields query pipeline_steps handle_func w).2
  = trace w
    ++ EvAggregate (Match query :: default [] pipeline_steps)
    :: after_call
         (aggregate (Match query :: default [] pipeline_steps) (store w)).1.
Proof.
  unfold find. rewrite bind_run, execute_find_run, collection_aggregate_run.
  rewrite find_pipeline_eq.
  set (p := Match query :: default [] pipeline_steps).
  destruct (aggregate p (store w)) as [[found|e] d]; simpl.
  - rewrite handle_result_unvalidated. simpl. done.
  - pose proof (handed_over_frame e
      (log (EvAggregate p) (set_store d w))) as (_ & _ & Ht).
    destruct (handed_over e _) as [[v|e'] w']; simpl in *.
    + rewrite handle_result_unvalidated, Ht. by rewrite <- app_assoc.
    + rewrite Ht. by rewrite <- app_assoc.
Qed.

(** [None] for the pipeline steps, the default of [find_by_id], and the
    empty list, the default of [find], give the same call. *)
Theorem find_none_steps_as_empty (query : mapping) handle_func w :
  find document_fields query None handle_func w
  = find document_fields query (Some []) handle_func w.
Proof. unfold find. by rewrite !bind_run, !execute_find_run. Qed.

(** When the aggregation fails, the failure goes to the handler and, the
    handler returning, [find] without a post-processing function returns
    [None]: a failed read and an absent result look the same to the
    caller. *)
Theorem find_store_failure_returns_none (query : mapping) pipeline_steps
    w e d h :
  aggregate (Match query :: default [] pipeline_steps) (store w)
    = (Raise e, d) →
  handle_error e (handler_state w) = (Ret (), h) →
  find document_fields query pipeline_steps None w
  = (Ret VNone,
     log (EvHandleError e)
       (set_handler_state h
          (log (EvAggregate (Match query :: default [] pipeline_steps))
             (set_store d w)))).
Proof.
  intros Hagg Hh. unfold find.
  rewrite bind_run, execute_find_run, collection_aggregate_run.
  rewrite find_pipeline_eq, Hagg. simpl.
  rewrite handed_over_run. simpl. by rewrite Hh.
Qed.

Lemma delete_method_call_run f (query : mapping) w :
  delete_method_call f query w =
  let r := match f with
           | DeleteOne => collection_delete_one query (store w)
           | DeleteMany => collection_delete_many query (store w)
           end in
  (match r.1 with
   | Ret ack => Ret (VDeleteResult ack)
   | Raise e => Raise e
   end, log (EvDelete f query) (set_store r.2 w)).
Proof.
  unfold delete_method_call.
  by destruct f;
    [destruct (collection_delete_one _ _)|destruct (collection_delete_many _ _)].
Qed.

(** [delete_one] hands back the driver's own acknowledgment when the delete
    succeeds, after one store call and no handler call; when the delete
    fails and the handler returns, it returns [None]. *)
Theorem delete_one_returns_acknowledgment (query : mapping) w :
  (∀ ack d,
     collection_delete_one query (store w) = (Ret ack, d) →
     delete_one query w
     = (Ret (VDeleteResult ack), log (EvDelete DeleteOne query) (set_store d w)))
  ∧
  (∀ e d h,
     collection_delete_one query (store w) = (Raise e, d) →
     handle_error e (handler_state w) = (Ret (), h) →
     delete_one query w
     = (Ret VNone,
        log (EvHandleError e)
          (set_handler_state h
             (log (EvDelete DeleteOne query) (set_store d w))))).
Proof.
  unfold delete_one, _execute_delete. split.
  - intros ack d Hd. rewrite bind_run, boundary_run, delete_method_call_run.
    simpl. by rewrite Hd.
  - intros e d h Hd Hh. rewrite bind_run, boundary_run, delete_method_call_run.
    simpl. rewrite Hd. simpl. rewrite handed_over_run. simpl. by rewrite Hh.
Qed.

(** [delete_many] does the same through the driver's [delete_many]. *)
Theorem delete_many_returns_acknowledgment (query : mapping) w :
  (∀ ack d,
     collection_delete_many query (store w) = (Ret ack, d) →
     delete_many query w
     = (Ret (VDeleteResult ack),
        log (EvDelete DeleteMany query) (set_store d w)))
  ∧
  (∀ e d h,
     collection_delete_many query (store w) = (Raise e, d) →
     handle_error e (handler_state w) = (Ret (), h) →
     delete_many query w
     = (Ret VNone,
        log (EvHandleError e)
          (set_handler_state h
             (log (EvDelete DeleteMany query) (set_store d w))))).
Proof.
  unfold delete_many, _execute_delete. split.
  - intros ack d Hd. rewrite bind_run, boundary_run, delete_method_call_run.
    simpl. by rewrite Hd.
  - intros e d h Hd Hh. rewrite bind_run, boundary_run, delete_method_call_run.
    simpl. rewrite Hd. simpl. rewrite handed_over_run. simpl. by rewrite Hh.
Qed.

(** *** A handler that always returns *)

Lemma boundary_contains {A} (func : A → M value) (args : A) w :
  (∀ e (h : hs), (handle_error e h).1 = Ret ()) →
  ∃ v, (_execute_with_error_handling func error_handler args w).1 = Ret v.
Proof.
  intros Hret. rewrite boundary_run.
  destruct (func args w) as [[v|e] w']; [by eauto|].
  rewrite handed_over_outcome, Hret. eauto.
Qed.

(** With an error handler that returns on every exception, [find] without a
    post-processing function, the inserts and the deletes never raise:
    every failure of validation or of the store becomes a returned value. *)
Theorem returning_handler_contains_failures (query : mapping) pipeline_steps
    (doc : mapping) docs w :
  (∀ e (h : hs), (handle_error e h).1 = Ret ()) →
  (∃ v, (find document_fields query pipeline_steps None w).1 = Ret v) ∧
  (∃ v, (insert_one document_fields doc w).1 = Ret v) ∧
  (∃ v, (insert_many document_fields docs w).1 = Ret v) ∧
  (∃ v, (delete_one query w).1 = Ret v) ∧
  (∃ v, (delete_many query w).1 = Ret v).
Proof.
  intros Hret. split_and!.
  - unfold find. rewrite bind_run.
    destruct (boundary_contains
                (λ kw : mapping * option (list stage),
                   collection_aggregate (find_pipeline kw.1 kw.2))
                (query, pipeline_steps) w Hret) as [v Hv].
    rewrite execute_find_run. rewrite boundary_run in Hv. simpl in Hv.
    destruct (collection_aggregate _ w) as [[v'|e] w']; simpl in *; [eauto|].
    destruct (handed_over e w') as [r w'']; simpl in *; subst r. eauto.
  - unfold insert_one. rewrite bind_run. unfold ObjectId at 1.
    apply boundary_contains, Hret.
  - unfold insert_many. rewrite bind_run.
    destruct (comprehension_ObjectId docs w) as [ids ->].
    apply boundary_contains, Hret.
  - unfold delete_one, _execute_delete. rewrite bind_run.
    destruct (boundary_contains (delete_method_call DeleteOne) query w Hret)
      as [v Hv].
    destruct (_execute_with_error_handling _ _ _ w) as [r w']; simpl in *.
    subst r. eauto.
  - unfold delete_many, _execute_delete. rewrite bind_run.
    destruct (boundary_contains (delete_method_call DeleteMany) query w Hret)
      as [v Hv].
    destruct (_execute_with_error_handling _ _ _ w) as [r w']; simpl in *.
    subst r. eauto.
Qed.
End MediatorCalls.


Section MediatorInserts.
Import BaseDocument BaseCollection Schema.
Context {db hs : Type} `{!Collection db} `{!ErrorHandler hs}.
Variable document_fields : list field.

Implicit Types (w : @world db hs) (docs : list mapping) (e : exn).

Lemma validate_all_Forall2 docs ms :
  validate_all document_fields docs = Ret ms ↔
  Forall2 (λ d m, validate document_fields d = Ret m) docs ms.
Proof.
  revert ms. induction docs as [|d docs IH]; intros ms; simpl.
  - split; [intros ?; simplify_eq; constructor|by inversion 1].
  - split.
    + destruct (validate document_fields d) as [m|] eqn:Hd; [|done].
      destruct (validate_all document_fields docs) as [ms'|] eqn:Hall; [|done].
      intros ?; simplify_eq. constructor; [done|]. by apply IH.
    + inversion 1 as [|? m ? ms' Hd Hrest]; subst. rewrite Hd.
      apply IH in Hrest. by rewrite Hrest.
Qed.

Lemma validate_all_first_failure prefix (d : mapping) rest e :
  Forall (λ d, ∃ m, validate document_fields d = Ret m) prefix →
  validate document_fields d = Raise e →
  validate_all document_fields (prefix ++ d :: rest) = Raise e.
Proof.
  intros Hp Hd. induction Hp as [|d' prefix [m Hm] _ IH]; simpl.
  - by rewrite Hd.
  - by rewrite Hm, IH.
Qed.

Lemma insert_trace (batch : list mapping) w :
  trace (match insert_many_method batch w with
         | (Ret v, w2) => (Ret v, w2)
         | (Raise e, w2) => handed_over e w2
         end).2
  = trace w ++ EvInsertMany batch
      :: after_call (collection_insert_many batch (store w)).1.
Proof.
  rewrite insert_many_method_run.
  destruct (collection_insert_many batch (store w)) as [[ack|e] d]; simpl;
    [done|].
  destruct (handed_over_frame e (log (EvInsertMany batch) (set_store d w)))
    as (_ & _ & ->). simpl. by rewrite <- app_assoc.
Qed.

(** When every document of the list validates, [insert_many] makes one store
    call, an insert of the serialized records in the order of the list, and
    returns the driver's acknowledgment of it; an empty list is submitted as
    an empty batch. *)
Theorem insert_many_submits_one_batch docs (ms : list model) w :
  Forall2 (λ d m, validate document_fields d = Ret m) docs ms →
  trace (insert_many document_fields docs w).2
  = trace w ++ EvInsertMany (dict <$> ms)
      :: after_call (collection_insert_many (dict <$> ms) (store w)).1 ∧
  length (dict <$> ms) = length docs ∧
  ∀ ack d,
    collection_insert_many (dict <$> ms) (store w) = (Ret ack, d) →
    (insert_many document_fields docs w).1 = Ret (VInsertResult ack) ∧
    store (insert_many document_fields docs w).2 = d.
Proof.
  intros Hall. pose proof (Forall2_length _ _ _ Hall) as Hlen.
  apply validate_all_Forall2 in Hall.
  rewrite insert_many_run, Hall. cbv zeta. split_and!.
  - by rewrite insert_trace.
  - by rewrite length_fmap.
  - intros ack d Hs. rewrite insert_many_method_run. simpl. by rewrite Hs.
Qed.

(** A list whose first invalid document fails with [e] makes [insert_many]
    hand [e], the failure of that document, to the handler first; the
    documents after it are not validated into the outcome, and the handler is
    called a second time for the failure that follows. *)
Theorem insert_many_hands_over_first_failure prefix (d : mapping) rest e w :
  Forall (λ d, ∃ m, validate document_fields d = Ret m) prefix →
  validate document_fields d = Raise e →
  ∃ e2, trace (insert_many document_fields (prefix ++ d :: rest) w).2
        = trace w ++ [EvHandleError e; EvHandleError e2].
Proof.
  intros Hp Hd.
  rewrite insert_many_run, (validate_all_first_failure _ _ _ _ Hp Hd).
  cbv zeta. set (w1 := set_next_oid _ w).
  pose proof (handed_over_frame e w1) as (_ & _ & Ht1).
  destruct (handed_over e w1) as [[v|e2] w2]; simpl in Ht1.
  - eexists.
    destruct (handed_over_frame (TypeError "object is not iterable") w2)
      as (_ & _ & ->). by rewrite Ht1, <- app_assoc.
  - eexists. destruct (handed_over_frame e2 w2) as (_ & _ & ->).
    by rewrite Ht1, <- app_assoc.
Qed.

(** The identity given to [insert_by_id] does not reach the store: validation
    moves [_id] to [mongoid], serialization drops [mongoid], and the one
    document submitted carries neither key. *)
Theorem insert_by_id_drops_identity (document_id : pyval) (document_data : nat)
    (d : mapping) m w :
  "_id" ∉ declared_names document_fields →
  heap w !! document_data = Some d →
  validate document_fields (<["_id" := document_id]> d) = Ret m →
  mongoid m = Some (PStr (py_str document_id)) ∧
  dict m !! "_id" = None ∧
  dict m !! "mongoid" = None ∧
  trace (insert_by_id document_fields document_id document_data w).2
  = trace w ++ EvInsertMany [dict m]
      :: after_call (collection_insert_many [dict m] (store w)).1.
Proof.
  intros Hdecl Hd Hv.
  destruct (validate_relocates_identity_aux document_fields
              (<["_id" := document_id]> d) document_id m Hdecl)
    as [Hm Hnone]; [apply lookup_insert_eq|done|].
  split_and!; [done| | |].
  - rewrite dict_lookup. by case_decide.
  - rewrite dict_lookup. by case_decide.
  - unfold insert_by_id. rewrite Hd, insert_one_run, Hv. cbv zeta.
    by rewrite insert_trace.
Qed.
End MediatorInserts.

Section MediatorResults.
Import BaseDocument BaseCollection Schema.
Context {db hs : Type} `{!Collection db} `{!ErrorHandler hs}.
Variable document_fields : list field.

Implicit Types (w : @world db hs) (docs : list mapping) (e : exn).

Lemma handle_result_run (result : value) func w :
  _handle_result document_fields result func true w =
  match _validate_docs document_fields result w with
  | (Ret v, w') =>
      match func with
      | Some f => (f v, w')
      | None => (Ret result, w')
      end
  | (Raise e, w') => (Raise e, w')
  end.
Proof.
  unfold _handle_result. rewrite !bind_run.
  destruct (_validate_docs document_fields result w) as [[v|e] w'];
    [|done].
  unfold mret at 1, M_ret at 1. by destruct func.
Qed.

(** With validation on and a post-processing function, [_handle_result]
    applies the function to the list of validated records, not to the raw
    documents; if a document is invalid and the handler returns, the function
    is applied to [None]. *)
Theorem handle_result_applies_func_to_records docs
    (f : value → outcome value) w :
  (∀ ms,
     Forall2 (λ d m, validate document_fields d = Ret m) docs ms →
     _handle_result document_fields (VList (VDict <$> docs)) (Some f) true w
     = (f (VList (VModel <$> ms)), w)) ∧
  (∀ prefix d rest e h,
     docs = prefix ++ d :: rest →
     Forall (λ d, ∃ m, validate document_fields d = Ret m) prefix →
     validate document_fields d = Raise e →
     handle_error e (handler_state w) = (Ret (), h) →
     _handle_result document_fields (VList (VDict <$> docs)) (Some f) true w
     = (f VNone, log (EvHandleError e) (set_handler_state h w))).
Proof.
  split.
  - intros ms Hall. apply validate_all_Forall2 in Hall.
    by rewrite handle_result_run, validate_docs_run, Hall.
  - intros prefix d rest e h -> Hp Hd Hh.
    rewrite handle_result_run, validate_docs_run.
    rewrite (validate_all_first_failure _ _ _ _ _ Hp Hd).
    rewrite handed_over_run. simpl. by rewrite Hh.
Qed.

(** With validation on and no post-processing function, [_handle_result]
    returns the documents it was given, untouched: validation filters
    nothing, and with a handler that returns even invalid documents come
    back. *)
Theorem handle_result_returns_input (result : value) docs w :
  ((∀ e (h : hs), (handle_error e h).1 = Ret ()) →
   (_handle_result document_fields result None true w).1 = Ret result) ∧
  (∀ ms,
     Forall2 (λ d m, validate document_fields d = Ret m) docs ms →
     _handle_result document_fields (VList (VDict <$> docs)) None true w
     = (Ret (VList (VDict <$> docs)), w)).
Proof.
  split.
  - intros Hret. rewrite handle_result_run. unfold _validate_docs.
    match goal with
    | |- context [_execute_with_error_handling ?g error_handler result w] =>
        destruct (boundary_contains g result w Hret) as [v Hv];
        destruct (_execute_with_error_handling g error_handler result w)
          as [r w']
    end.
    simpl in Hv. by subst r.
  - intros ms Hall. apply validate_all_Forall2 in Hall.
    by rewrite handle_result_run, validate_docs_run, Hall.
Qed.
End MediatorResults.

Section MediatorLookups.
Import BaseDocument BaseCollection Schema.
Context {db hs : Type} `{!Collection db} `{!ErrorHandler hs}.
Variable document_fields : list field.

Implicit Types (w : @world db hs).

(** [find_by_id] with its defaults asks the store for the documents whose
    [_id] is the given identity, with a pipeline of that one match stage, and
    returns what the store found as a list, empty when nothing matches. *)
Theorem find_by_id_matches_on_identity (document_id : pyval) w :
  trace (find_by_id document_fields document_id None None w).2
  = trace w ++ EvAggregate [Match {[ "_id" := document_id ]}]
      :: after_call (aggregate [Match {[ "_id" := document_id ]}] (store w)).1
  ∧
  ∀ found d,
    aggregate [Match {[ "_id" := document_id ]}] (store w) = (Ret found, d) →
    (find_by_id document_fields document_id None None w).1
    = Ret (VList (VDict <$> found)).
Proof.
  unfold find_by_id. split.
  - by rewrite find_issues_one_aggregate.
  - intros found d Hagg.
    by rewrite (find_returns_raw_documents _ _ None w found d Hagg).
Qed.
End MediatorLookups.

(** * The extra properties on concrete collaborators *)

Section MoreScenarios.
Import BaseDocument BaseCollection Schema Memory.

Local Abbreviation logging f := (f (list mapping) (list exn) memory_store logging_handler [name_field]).
Local Abbreviation plain f := (f (list mapping) (list exn) memory_store logging_handler).
Local Abbreviation offline f := (f unit (list exn) unreachable_store logging_handler [name_field]).
Local Abbreviation handling f := (f (list mapping) (list exn) logging_handler [name_field]).

Local Abbreviation alice_record :=
  (Model {[ "mongoid" := PStr "65a1"; "name" := PStr "alice" ]}).

Lemma handle_objectid_other_keys_witness :
  handle_objectid alice !! "name" = alice !! "name".
Proof. by apply handle_objectid_other_keys. Defined.

Lemma validate_ignores_undeclared_keys_witness :
  validate [name_field] (<["age" := PInt 3]> alice)
  = validate [name_field] alice.
Proof.
  apply validate_ignores_undeclared_keys.
  - reflexivity.
  - intros k Hk. unfold declared_names in Hk. simpl in Hk.
    apply elem_of_cons in Hk as [->|Hk]; [reflexivity|].
    apply elem_of_cons in Hk as [->|Hk]; [reflexivity|].
    by inversion Hk.
Defined.

Lemma dict_keys_are_declared_fields_witness :
  is_Some (dict alice_record !! "name") ↔
  "name" ∈ declared_names [name_field] ∧ "name" ≠ "mongoid".
Proof.
  apply (dict_keys_are_declared_fields [name_field] alice).
  vm_compute. reflexivity.
Defined.

Lemma validate_reports_failing_fields_witness :
  ∃ f, f ∈ model_fields [name_field] ∧
       ¬ field_accepted (handle_objectid nameless) f.
Proof.
  refine (proj2 (validate_reports_failing_fields [name_field] nameless
                   (ValidationError ["name"]) _)).
  vm_compute. reflexivity.
Defined.

Lemma mongoid_is_none_or_string_witness :
  mongoid alice_record = Some PNone ∨
  ∃ s, mongoid alice_record = Some (PStr s).
Proof.
  apply (mongoid_is_none_or_string [name_field] alice).
  vm_compute. reflexivity.
Defined.

Lemma validate_without_identity_witness :
  mongoid (Model {[ "mongoid" := PStr "7"; "name" := PStr "bob" ]})
  = match ({[ "name" := PStr "bob"; "mongoid" := PInt 7 ]} : mapping)
            !! "mongoid" with
    | Some v => optional_str v
    | None => Some PNone
    end.
Proof.
  apply (validate_without_identity [name_field]).
  - reflexivity.
  - vm_compute. reflexivity.
Defined.

Lemma find_store_failure_returns_none_witness :
  offline (@find) {[ "name" := PStr "alice" ]} None None offline_world
  = (Ret VNone,
     log (EvHandleError (StoreError 503))
       (set_handler_state [StoreError 503]
          (log (EvAggregate
                  (Match {[ "name" := PStr "alice" ]} :: default [] None))
             (set_store () offline_world)))).
Proof.
  apply (offline (@find_store_failure_returns_none)); reflexivity.
Defined.

Lemma find_by_id_matches_on_identity_witness :
  (logging (@find_by_id) (PObjectId "65a1") None None one_document).1
  = Ret (VList (VDict <$> [])).
Proof.
  apply (proj2 (logging (@find_by_id_matches_on_identity) (PObjectId "65a1")
                  one_document) [] [alice_stored]).
  vm_compute. reflexivity.
Defined.

Lemma delete_one_returns_acknowledgment_witness :
  plain (@delete_one) {[ "name" := PStr "alice" ]} one_document
  = (Ret (VDeleteResult {| deleted_count := 1 |}),
     log (EvDelete DeleteOne {[ "name" := PStr "alice" ]})
       (set_store [] one_document)).
Proof.
  apply (proj1 (plain (@delete_one_returns_acknowledgment)
                  {[ "name" := PStr "alice" ]} one_document)).
  vm_compute. reflexivity.
Defined.

Lemma delete_many_returns_acknowledgment_witness :
  plain (@delete_many) {[ "name" := PStr "bob" ]} one_document
  = (Ret (VDeleteResult {| deleted_count := 0 |}),
     log (EvDelete DeleteMany {[ "name" := PStr "bob" ]})
       (set_store [alice_stored] one_document)).
Proof.
  apply (proj1 (plain (@delete_many_returns_acknowledgment)
                  {[ "name" := PStr "bob" ]} one_document)).
  vm_compute. reflexivity.
Defined.

Lemma returning_handler_contains_failures_witness :
  ∃ v, (logging (@insert_many) [alice; nameless] empty_world).1 = Ret v.
Proof.
  refine (proj1 (proj2 (proj2
    (logging (@returning_handler_contains_failures) ∅ None nameless
       [alice; nameless] empty_world _)))).
  intros e h. reflexivity.
Defined.

Lemma insert_many_submits_one_batch_witness :
  length (dict <$> [alice_record]) = length [alice].
Proof.
  refine (proj1 (proj2
    (logging (@insert_many_submits_one_batch) [alice] [alice_record]
       empty_world _))).
  constructor; [vm_compute; reflexivity|constructor].
Defined.

Lemma insert_many_hands_over_first_failure_witness :
  ∃ e2, trace (logging (@insert_many) ([alice] ++ nameless :: [alice])
                 empty_world).2
        = trace empty_world
          ++ [EvHandleError (ValidationError ["name"]); EvHandleError e2].
Proof.
  apply (logging (@insert_many_hands_over_first_failure)).
  - constructor; [|constructor]. exists alice_record. vm_compute. reflexivity.
  - vm_compute. reflexivity.
Defined.

Lemma insert_by_id_drops_identity_witness :
  dict alice_record !! "_id" = None.
Proof.
  refine (proj1 (proj2
    (logging (@insert_by_id_drops_identity) (PObjectId "65a1") 7
       {[ "name" := PStr "alice" ]} alice_record
       (World [] [] {[ 7 := {[ "name" := PStr "alice" ]} ]} 0 []) _ _ _))).
  - compute_done.
  - reflexivity.
  - vm_compute. reflexivity.
Defined.

Lemma handle_result_applies_func_to_records_witness :
  handling (@_handle_result) (VList (VDict <$> [alice]))
    (Some (λ v, Ret (VList [v]))) true empty_world
  = (Ret (VList [VList (VModel <$> [alice_record])]), empty_world).
Proof.
  apply (proj1 (handling (@handle_result_applies_func_to_records) [alice]
                  (λ v, Ret (VList [v])) empty_world)).
  constructor; [vm_compute; reflexivity|constructor].
Defined.

Lemma handle_result_returns_input_witness :
  (handling (@_handle_result) (VList (VDict <$> [nameless])) None true
     empty_world).1
  = Ret (VList (VDict <$> [nameless])).
Proof.
  apply (proj1 (handling (@handle_result_returns_input)
                  (VList (VDict <$> [nameless])) [] empty_world)).
  intros e h. reflexivity.
Defined.
End MoreScenarios.
